(** * On-demand retrieval (package [light], file light/odr.go)

    A shallow embedding of the request types of the light client and of
    their [StoreResult] routines, with the properties the specification
    states about them.

    Go values are modelled as follows.
    - [[]byte] and [rlp.RawValue] are [list byte]; the nil slice is [[]].
    - [common.Hash] ([[32]byte]) is a byte list as well, and [h[:]] is the
      list itself.
    - [uint64] and [big.Int] are [Z]; the conversion [Uint64()] is written
      out.
    - A method that mutates the database handle becomes a function from the
      database state to the new database state.
    - Pointers to requests, headers and big integers are taken to be
      non-nil; the optional [Id] of a request is an [option]. *)

From Stdlib Require Import ZArith Lia.
From Stdlib Require Import Strings.Byte.
From stdpp Require Import base option list countable gmap strings.

Local Open Scope Z_scope.

(** ** Bytes, hashes, errors *)

Abbreviation bytes := (list byte).

#[global] Instance byte_eq_decision : EqDecision byte := Byte.byte_eq_dec.

#[global] Program Instance byte_countable : Countable byte :=
  inj_countable Byte.to_N Byte.of_N _.
Next Obligation. exact Byte.of_to_N. Qed.

(** [common.Hash]. *)
Module common.
Abbreviation Hash := (list byte).
End common.

(** Go's [error] values; [None] of [option error] is the nil error. *)
Definition error := string.

(** [Uint64()] of a [big.Int]: the low 64 bits of the magnitude. *)
Definition Uint64 (x : Z) : Z := Z.abs x mod 2 ^ 64.

(** ** The database interface *)

Module wtcdb.

(** Modelled from the spec: the interface [wtcdb.Database] is not part of
    the source.  The database contract is [get(key)], which gives bytes or
    absent, and [put(key, bytes)], which gives success or failure.  [Get]
    returns Go's pair of a value ([None] for the nil value) and an error;
    [Put] returns the new state and an error. *)
Class Database (D : Type) := {
  Get : D → bytes → option bytes * option error;
  Put : D → bytes → bytes → D * option error;
}.

(** Modelled from the spec: the state of a database under that contract, a
    finite map from keys to values.  [Get] gives the bytes stored under the
    key or absent, and every [Put] succeeds. *)
Abbreviation MemDatabase := (gmap bytes bytes).

#[global] Instance MemDatabase_db : Database MemDatabase := {
  Get m key :=
    match m !! key with
    | Some v => (Some v, None)
    | None => (None, Some "not found"%string)
    end;
  Put m key value := (<[key := value]> m, None);
}.

(** A handle that refuses every write and leaves the contents as they
    are. *)
Record ReadOnly (D : Type) := mkReadOnly { ro_db : D }.
Arguments mkReadOnly {D} _.
Arguments ro_db {D} _.

#[global] Instance ReadOnly_db {D} `{!Database D} : Database (ReadOnly D) := {
  Get r key := Get (ro_db r) key;
  Put r key value := (r, Some "read-only database"%string);
}.

(** A handle that keeps a journal of the writes it was asked for, oldest
    first, each with the result the underlying database gave. *)
Record Recorder (D : Type) := mkRecorder {
  inner : D;
  puts : list (bytes * bytes * option error);
}.
Arguments mkRecorder {D} _ _.
Arguments inner {D} _.
Arguments puts {D} _.

#[global] Instance Recorder_db {D} `{!Database D} : Database (Recorder D) := {
  Get r key := Get (inner r) key;
  Put r key value :=
    let '(d, err) := Put (inner r) key value in
    (mkRecorder d (puts r ++ [(key, value, err)]), err);
}.

(** A fresh journal around a database. *)
Definition record {D} (d : D) : Recorder D := mkRecorder d [].

(** A journal entry whose write succeeded. *)
Definition accepted (entry : bytes * bytes * option error) : Prop :=
  entry.2 = None.

(** A journal entry whose write was rejected. *)
Definition rejected (entry : bytes * bytes * option error) : Prop :=
  is_Some entry.2.

End wtcdb.
Export wtcdb.

(** ** Consumed packages: [crypto], [types] *)

Module crypto.

(** The hash function [crypto.Keccak256]; the package is not part of the
    source. *)
Class Keccak := Keccak256 : bytes → bytes.

End crypto.

Module types.

(** Modelled from the spec: the type [types.Header] is not part of the
    source.  The header contract is an already-decoded header exposing its
    hash, number, and state root; the code reads them as [header.Hash()],
    [header.Number] (a [big.Int]) and [header.Root]. *)
Class Header (H : Type) := {
  Hash : H → common.Hash;
  Number : H → Z;
  Root : H → common.Hash;
}.

End types.

(** ** Trie identities *)

(** [TrieID]: identifies a state or account storage trie. *)
Record TrieID := mkTrieID {
  BlockHash : common.Hash;
  Root : common.Hash;
  BlockNumber : Z;
  AccKey : bytes;
}.

(** [StateTrieID]: the identity of the state trie of a block header. *)
Definition StateTrieID {H : Type} `{!types.Header H} (header : H) : TrieID :=
  {| BlockHash := types.Hash header;
     BlockNumber := Uint64 (types.Number header);
     AccKey := [];
     Root := types.Root header |}.

(** [StorageTrieID]: the identity of the storage trie of an account of a
    state trie. *)
Definition StorageTrieID (state : TrieID) (addrHash root : common.Hash) : TrieID :=
  {| BlockHash := BlockHash state;
     BlockNumber := BlockNumber state;
     AccKey := addrHash;
     Root := root |}.

(** ** The proof store *)

(** [storeProof]: stores the new trie nodes obtained from a merkle proof.
    The loop runs over the nodes in order; the error of [Get] and the result
    of [Put] are dropped, as in the source. *)
Fixpoint storeProof {D : Type} `{!Database D} `{!crypto.Keccak} (db : D)
    (proof : list bytes) : D :=
  match proof with
  | [] => db
  | buf :: rest =>
      let hash := crypto.Keccak256 buf in
      let '(val, _) := Get db hash in
      let db' :=
        match val with
        | None => let '(db1, _) := Put db hash buf in db1
        | Some _ => db
        end in
      storeProof db' rest
  end.

(** One turn of [storeProof]'s loop on the in-memory database: the node is
    written when no value exists under its hash. *)
Definition storeNode `{!crypto.Keccak} (m : MemDatabase) (buf : bytes) : MemDatabase :=
  match m !! crypto.Keccak256 buf with
  | None => <[crypto.Keccak256 buf := buf]> m
  | Some _ => m
  end.

(** The write of a node: its hash as key, the node as value. *)
Definition nodeWrite `{!crypto.Keccak} (buf : bytes) : bytes * bytes :=
  (crypto.Keccak256 buf, buf).

(** The nodes of a proof that have no value under their hash in [d]. *)
Definition missing {D : Type} `{!Database D} `{!crypto.Keccak} (d : D)
    (proof : list bytes) : list bytes :=
  filter (λ buf, (Get d (crypto.Keccak256 buf)).1 = None) proof.

(** The journal entry of the write of a node that a read-only handle
    refused. *)
Definition refusal `{!crypto.Keccak} (buf : bytes) : bytes * bytes * option error :=
  (crypto.Keccak256 buf, buf, Some "read-only database"%string).

(** ** Consumed package: [core] *)

Module core.

(** The chain-database writers of package [core] that the store routines
    call; the package is not part of the source.  Each takes the database
    handle first, and its results are dropped by the callers. *)
Class Writers (D H R : Type) := {
  WriteBodyRLP : D → common.Hash → Z → bytes → D;
  WriteBlockReceipts : D → common.Hash → Z → R → D;
  WriteHeader : D → H → D;
  WriteTd : D → common.Hash → Z → Z → D;
  WriteCanonicalHash : D → common.Hash → Z → D;
}.

(** A call of one of the writers, with its arguments. *)
Inductive Call {H R : Type} :=
| CallWriteBodyRLP (hash : common.Hash) (number : Z) (rlp : bytes)
| CallWriteBlockReceipts (hash : common.Hash) (number : Z) (receipts : R)
| CallWriteHeader (header : H)
| CallWriteTd (hash : common.Hash) (number : Z) (td : Z)
| CallWriteCanonicalHash (hash : common.Hash) (number : Z).
Arguments Call : clear implicits.

(** Writers that do nothing but log their calls, oldest first; the log
    stands for the database handle. *)
#[global] Instance tracer {H R : Type} : Writers (list (Call H R)) H R := {|
  WriteBodyRLP log hash number rlp := log ++ [CallWriteBodyRLP hash number rlp];
  WriteBlockReceipts log hash number receipts :=
    log ++ [CallWriteBlockReceipts hash number receipts];
  WriteHeader log header := log ++ [CallWriteHeader header];
  WriteTd log hash number td := log ++ [CallWriteTd hash number td];
  WriteCanonicalHash log hash number := log ++ [CallWriteCanonicalHash hash number];
|}.

(** The structured per-block keys, derived from block hash and number, and
    the encodings of the stored records.  Their layout is not part of the
    source. *)
Class Schema (H R : Type) := mkSchema {
  bodyKey : common.Hash → Z → bytes;
  receiptsKey : common.Hash → Z → bytes;
  headerKey : common.Hash → Z → bytes;
  tdKey : common.Hash → Z → bytes;
  canonicalHashKey : Z → bytes;
  encodeReceipts : R → bytes;
  encodeHeader : H → bytes;
  encodeTd : Z → bytes;
}.

Section spec.
Context {D H R : Type} `{!Database D} `{!types.Header H} `{!Schema H R}.

(** Modelled from the spec: [core.WriteBodyRLP] is not part of the source.
    It writes the raw body bytes under the canonical body key for (hash,
    number). *)
Definition spec_WriteBodyRLP (db : D) (hash : common.Hash) (number : Z)
    (rlp : bytes) : D :=
  (Put db (bodyKey hash number) rlp).1.

(** Modelled from the spec: [core.WriteBlockReceipts] is not part of the
    source.  It writes the receipt list under the canonical receipts key for
    (hash, number). *)
Definition spec_WriteBlockReceipts (db : D) (hash : common.Hash)
    (number : Z) (receipts : R) : D :=
  (Put db (receiptsKey hash number) (encodeReceipts receipts)).1.

(** Modelled from the spec: [core.WriteHeader] is not part of the source.
    It writes the header record, one write, under the per-block key of the
    header's own hash and number. *)
Definition spec_WriteHeader (db : D) (header : H) : D :=
  (Put db (headerKey (types.Hash header) (Uint64 (types.Number header)))
       (encodeHeader header)).1.

(** Modelled from the spec: [core.WriteTd] is not part of the source.  It
    writes the total-difficulty record keyed by (hash, number). *)
Definition spec_WriteTd (db : D) (hash : common.Hash) (number : Z)
    (td : Z) : D :=
  (Put db (tdKey hash number) (encodeTd td)).1.

(** Modelled from the spec: [core.WriteCanonicalHash] is not part of the
    source.  It writes the canonical-hash record mapping number to hash. *)
Definition spec_WriteCanonicalHash (db : D) (hash : common.Hash)
    (number : Z) : D :=
  (Put db (canonicalHashKey number) hash).1.

(** Modelled from the spec: the five writers above, as package [core]. *)
#[global] Instance spec : Writers D H R := {|
  WriteBodyRLP := spec_WriteBodyRLP;
  WriteBlockReceipts := spec_WriteBlockReceipts;
  WriteHeader := spec_WriteHeader;
  WriteTd := spec_WriteTd;
  WriteCanonicalHash := spec_WriteCanonicalHash;
|}.

End spec.

End core.

(** Modelled from the spec: the layout of the per-block keys is not part of
    the source.  The header record, the total-difficulty record and the
    canonical-hash record of a block are entries of their own, which end up
    present together: in a layout the key of the total-difficulty record of
    a block is not the key of its canonical-hash record. *)
Class RecordLayout (H R : Type) := mkRecordLayout {
  layout_schema :: core.Schema H R;
  td_canonical_separate :
    ∀ hash number, core.tdKey hash number ≠ core.canonicalHashKey number;
}.

(** ** Request types and their store routines

    Every request structure embeds the interface [OdrRequest]; the embedded
    value plays no part in the store routines and is left out. *)

(** [TrieRequest]: the request type for state/storage trie entries. *)
Module TrieRequest.

Record t := mk {
  Id : option TrieID;
  Key : bytes;
  Proof : list bytes;
}.

(** [StoreResult] stores the retrieved data in the local database. *)
Definition StoreResult {D : Type} `{!Database D} `{!crypto.Keccak} (req : t)
    (db : D) : D :=
  storeProof db (Proof req).

End TrieRequest.

(** [CodeRequest]: the request type for retrieving contract code. *)
Module CodeRequest.

Record t := mk {
  Id : option TrieID;
  Hash : common.Hash;
  Data : bytes;
}.

(** [StoreResult] stores the retrieved data in the local database. *)
Definition StoreResult {D : Type} `{!Database D} (req : t) (db : D) : D :=
  let '(db1, _) := Put db (Hash req) (Data req) in db1.

End CodeRequest.

(** [BlockRequest]: the request type for retrieving block bodies. *)
Module BlockRequest.

Record t := mk {
  Hash : common.Hash;
  Number : Z;
  Rlp : bytes;
}.

(** [StoreResult] stores the retrieved data in the local database. *)
Definition StoreResult {D H R : Type} `{!core.Writers D H R} (req : t)
    (db : D) : D :=
  core.WriteBodyRLP db (Hash req) (Number req) (Rlp req).

End BlockRequest.

(** [ReceiptsRequest]: the request type for retrieving block receipts. *)
Module ReceiptsRequest.

Record t {R : Type} := mk {
  Hash : common.Hash;
  Number : Z;
  Receipts : R;
}.
Arguments t : clear implicits.
Arguments mk {R} _ _ _.

(** [StoreResult] stores the retrieved data in the local database. *)
Definition StoreResult {D H R : Type} `{!core.Writers D H R} (req : t R)
    (db : D) : D :=
  core.WriteBlockReceipts db (Hash req) (Number req) (Receipts req).

End ReceiptsRequest.

(** [ChtRequest]: the request type for canonical-hash-trie entries. *)
Module ChtRequest.

Record t {H : Type} := mk {
  ChtNum : Z;
  BlockNum : Z;
  ChtRoot : common.Hash;
  Header : H;
  Td : Z;
  Proof : list bytes;
}.
Arguments t : clear implicits.
Arguments mk {H} _ _ _ _ _ _.

(** [StoreResult] stores the retrieved data in the local database: the
    header, then the total difficulty, then the canonical hash.  The proof
    is not stored (the call is commented out in the source). *)
Definition StoreResult {D H R : Type} `{!types.Header H}
    `{!core.Writers D H R} (req : t H) (db : D) : D :=
  let db1 := core.WriteHeader db (Header req) in
  let hash := types.Hash (Header req) in
  let num := Uint64 (types.Number (Header req)) in
  let db2 := core.WriteTd db1 hash num (Td req) in
  core.WriteCanonicalHash db2 hash num.

End ChtRequest.

(** [OdrRequest]: the interface for retrieval requests, with the five
    request types of this file as its implementations. *)
Inductive OdrRequest {H R : Type} :=
| Trie (req : TrieRequest.t)
| Code (req : CodeRequest.t)
| Block (req : BlockRequest.t)
| Receipts (req : ReceiptsRequest.t R)
| Cht (req : ChtRequest.t H).
Arguments OdrRequest : clear implicits.

(** [StoreResult], dispatched on the request's type. *)
Definition StoreResult {D H R : Type} `{!Database D} `{!crypto.Keccak}
    `{!types.Header H} `{!core.Writers D H R} (req : OdrRequest H R) (db : D) : D :=
  match req with
  | Trie r => TrieRequest.StoreResult r db
  | Code r => CodeRequest.StoreResult r db
  | Block r => BlockRequest.StoreResult r db
  | Receipts r => ReceiptsRequest.StoreResult r db
  | Cht r => ChtRequest.StoreResult r db
  end.

(** ** The retrieval backend *)

Module OdrBackend.

(** How a retrieval can fail. *)
Inductive Failure :=
| DeadlineExceeded
| ContextCancelled
| NoPeer
| VerificationFailure.

(** The state of the context when [Retrieve] is called. *)
Inductive Context :=
| Live
| Cancelled
| Expired.

(** What the network layer delivers for a request: the request with its
    answer accepted, or a failure. *)
Inductive Outcome {H R : Type} :=
| Accepted (answer : OdrRequest H R)
| Failed (f : Failure).
Arguments Outcome : clear implicits.

(** What a call of [Retrieve] leaves behind: the returned error, the state
    of the backend's database, and the requests whose store routine was
    invoked, in order. *)
Record Result {D H R : Type} := mkResult {
  err : option Failure;
  database : D;
  stored : list (OdrRequest H R);
}.
Arguments Result : clear implicits.
Arguments mkResult {D H R} _ _ _.

(** Modelled from the spec: the interface [OdrBackend] has no implementation
    in the source.  [Retrieve] performs the network interaction under the
    context; on success the request's store routine has been invoked exactly
    once against the backend's database handle; on a failure (deadline
    exceeded, context cancelled, no peer able to supply an answer, or proof
    verification failure) no store routine is invoked.  [StoreResult] gives
    no result, so the error returned is the one of the retrieval. *)
Definition Retrieve {D H R : Type} `{!Database D} `{!crypto.Keccak}
    `{!types.Header H} `{!core.Writers D H R}
    (network : OdrRequest H R → Outcome H R)
    (db : D) (ctx : Context) (req : OdrRequest H R) : Result D H R :=
  match ctx with
  | Cancelled => mkResult (Some ContextCancelled) db []
  | Expired => mkResult (Some DeadlineExceeded) db []
  | Live =>
      match network req with
      | Accepted answer => mkResult None (StoreResult answer db) [answer]
      | Failed f => mkResult (Some f) db []
      end
  end.

End OdrBackend.

(** ** A concrete instance

    A small hash function, header type and key layout on which the routines
    can be run. *)

Module Sample.

(** The first 32 bytes of the input, padded with zero bytes. *)
Definition hash32 (b : bytes) : bytes := take 32 (b ++ replicate 32 x00).

Definition Keccak : crypto.Keccak := hash32.

(** [n] as eight bytes, most significant first. *)
Definition be64 (n : Z) : bytes :=
  map (λ i : nat,
         match Byte.of_N (Z.to_N (Z.shiftr n (8 * (7 - Z.of_nat i)) mod 256)) with
         | Some b => b
         | None => x00
         end)
      (seq 0 8).

Record header := mkHeader {
  ParentHash : common.Hash;
  StateRoot : common.Hash;
  Height : Z;
}.

Definition Header : types.Header header := {|
  types.Hash h := hash32 (be64 (Height h) ++ StateRoot h ++ ParentHash h);
  types.Number h := Height h;
  types.Root h := StateRoot h;
|}.

Definition schema : core.Schema header (list bytes) := {|
  core.bodyKey hash number := [x62] ++ be64 number ++ hash;
  core.receiptsKey hash number := [x72] ++ be64 number ++ hash;
  core.headerKey hash number := [x68] ++ be64 number ++ hash;
  core.tdKey hash number := [x68] ++ be64 number ++ hash ++ [x74];
  core.canonicalHashKey number := [x68] ++ be64 number ++ [x6e];
  core.encodeReceipts receipts := concat receipts;
  core.encodeHeader h := be64 (Height h) ++ StateRoot h ++ ParentHash h;
  core.encodeTd td := be64 td;
|}.

Definition node1 : bytes := [xc2; x80; x01].
Definition node2 : bytes := [xc2; x80; x02].

Definition root5 : common.Hash := replicate 32 xaa.

(** A header with state root [root5] and block number 5. *)
Definition header5 : header := mkHeader (replicate 32 x11) root5 5.

(** A header whose number does not fit 64 bits. *)
Definition header_wide : header := mkHeader (replicate 32 x11) root5 (2 ^ 64).

(** A CHT request for [header5] that carries a total difficulty of 1000, a
    proof, and a block number that is not the header's. *)
Definition cht5 : ChtRequest.t header := ChtRequest.mk 0 7 [] header5 1000 [node1].

(** A CHT request for [header_wide]. *)
Definition cht_wide : ChtRequest.t header :=
  ChtRequest.mk 0 0 [] header_wide 1000 [].

(** A database that holds [node1] under its hash. *)
Definition db1 : MemDatabase := {[ hash32 node1 := node1 ]}.

(** A request for the code [node2], and a trie request whose proof is
    [node1]. *)
Definition code1 : CodeRequest.t := CodeRequest.mk None (hash32 node2) node2.
Definition trie1 : TrieRequest.t := TrieRequest.mk None [x01] [node1].

End Sample.

(** ** Further handles and maps used in the properties of [storeProof] *)

(** A handle whose every read fails: [Get] gives the nil value and an
    error, as a database does that cannot be read; writes go through to the
    database underneath. *)
Record Unreadable (D : Type) := mkUnreadable { ur_db : D }.
Arguments mkUnreadable {D} _.
Arguments ur_db {D} _.

#[global] Instance Unreadable_db {D} `{!Database D} : Database (Unreadable D) := {
  Get r key := (None, Some "read failed"%string);
  Put r key value :=
    let '(d, err) := Put (ur_db r) key value in (mkUnreadable d, err);
}.

(** The nodes of a proof as a map from hash to node; of two nodes with the
    same hash the earlier one of the list is the one in the map. *)
Definition proofMap `{!crypto.Keccak} (proof : list bytes) : MemDatabase :=
  list_to_map (map nodeWrite proof).

(** No two different nodes of the proof have the same hash. *)
Definition collisionFree `{!crypto.Keccak} (proof : list bytes) : Prop :=
  ∀ a b, a ∈ proof → b ∈ proof → crypto.Keccak256 a = crypto.Keccak256 b → a = b.

(** * Properties *)

(** ** The proof store on the in-memory database *)

Section storeProof_mem.
Context `{!crypto.Keccak}.
Implicit Types (m : MemDatabase) (proof : list bytes) (buf key value : bytes).

Lemma storeProof_nil m : storeProof m [] = m.
Proof. reflexivity. Qed.

Lemma storeProof_cons m buf proof :
  storeProof m (buf :: proof) = storeProof (storeNode m buf) proof.
Proof.
  unfold storeNode. cbn.
  destruct (m !! crypto.Keccak256 buf); reflexivity.
Qed.

Lemma storeNode_keeps m buf key value :
  m !! key = Some value → storeNode m buf !! key = Some value.
Proof.
  intros Hkey. unfold storeNode.
  destruct (m !! crypto.Keccak256 buf) eqn:Hhash; [done|].
  rewrite lookup_insert_ne; [done|]. congruence.
Qed.

Lemma storeNode_present m buf : is_Some (storeNode m buf !! crypto.Keccak256 buf).
Proof.
  unfold storeNode.
  destruct (m !! crypto.Keccak256 buf) eqn:Hhash.
  - rewrite Hhash. eauto.
  - rewrite lookup_insert_eq. eauto.
Qed.

Lemma storeNode_skip m buf :
  is_Some (m !! crypto.Keccak256 buf) → storeNode m buf = m.
Proof. intros [v Hv]. unfold storeNode. by rewrite Hv. Qed.

(** An entry of the store is never overwritten. *)
Lemma storeProof_keeps proof m key value :
  m !! key = Some value → storeProof m proof !! key = Some value.
Proof.
  revert m. induction proof as [|buf proof IH]; intros m Hkey; [done|].
  rewrite storeProof_cons. apply IH. by apply storeNode_keeps.
Qed.

(** Every node of the proof has an entry under its hash afterwards. *)
Lemma storeProof_present proof m buf :
  buf ∈ proof → is_Some (storeProof m proof !! crypto.Keccak256 buf).
Proof.
  revert m. induction proof as [|b proof IH]; intros m Hin.
  - by apply elem_of_nil in Hin.
  - rewrite storeProof_cons. apply elem_of_cons in Hin as [->|Hin].
    + destruct (storeNode_present m b) as [v Hv].
      exists v. by apply storeProof_keeps.
    + by apply IH.
Qed.

(** A proof whose nodes all have entries changes nothing. *)
Lemma storeProof_all_present proof m :
  (∀ buf, buf ∈ proof → is_Some (m !! crypto.Keccak256 buf)) →
  storeProof m proof = m.
Proof.
  induction proof as [|b proof IH]; intros Hall; [done|].
  rewrite storeProof_cons, storeNode_skip.
  - apply IH. intros buf Hin. apply Hall. by apply elem_of_cons; right.
  - apply Hall. by apply elem_of_cons; left.
Qed.

Lemma storeProof_idempotent proof m :
  storeProof (storeProof m proof) proof = storeProof m proof.
Proof.
  apply storeProof_all_present. intros buf Hin. by apply storeProof_present.
Qed.

End storeProof_mem.

(** ** Journals *)

Section journal.
Context {D : Type} `{!Database D} `{!crypto.Keccak}.
Implicit Types (r : Recorder D) (d : D) (proof : list bytes).

(** The journal does not change what the routine does to the database. *)
Lemma inner_storeProof proof r :
  inner (storeProof r proof) = storeProof (inner r) proof.
Proof.
  revert r. induction proof as [|buf proof IH]; intros r; [done|].
  cbn. destruct (Get (inner r) (crypto.Keccak256 buf)) as [[v|] e].
  - apply IH.
  - destruct (Put (inner r) (crypto.Keccak256 buf) buf) as [d e'] eqn:Hput.
    rewrite IH. reflexivity.
Qed.

(** Whatever the database answers, [storeProof] asks for the writes of nodes
    of the proof, in the order of the proof, and at most once for each
    node of the proof. *)
Lemma storeProof_attempts proof r :
  ∃ new, puts (storeProof r proof) = puts r ++ new
         ∧ new.*1 `sublist_of` map nodeWrite proof.
Proof.
  revert r. induction proof as [|buf proof IH]; intros r.
  - exists []. cbn. by rewrite app_nil_r.
  - cbn. destruct (Get (inner r) (crypto.Keccak256 buf)) as [[v|] e].
    + destruct (IH r) as (new & Hputs & Hsub).
      exists new. split; [done|]. by apply sublist_cons.
    + destruct (Put (inner r) (crypto.Keccak256 buf) buf) as [d e'] eqn:Hput.
      destruct (IH (mkRecorder d (puts r ++ [(crypto.Keccak256 buf, buf, e')])))
        as (new & Hputs & Hsub).
      exists ((crypto.Keccak256 buf, buf, e') :: new). split.
      * rewrite Hputs. cbn. by rewrite <- app_assoc.
      * cbn. by apply sublist_skip.
Qed.

(** Under a handle that refuses every write, the journal gets one refusal
    for each node that has no value under its hash, in the order of the
    proof, and the contents stay. *)
Lemma storeProof_readonly proof d log :
  storeProof (mkRecorder (mkReadOnly d) log) proof =
  mkRecorder (mkReadOnly d) (log ++ map refusal (missing d proof)).
Proof.
  revert log. induction proof as [|buf proof IH]; intros log.
  - cbn. by rewrite app_nil_r.
  - unfold missing. rewrite filter_cons. fold (missing d proof).
    cbn. destruct (Get d (crypto.Keccak256 buf)) as [[v|] e]; cbn.
    + rewrite decide_False by done. apply IH.
    + rewrite decide_True by done. rewrite IH. cbn.
      by rewrite <- app_assoc.
Qed.

End journal.

Section journal_mem.
Context `{!crypto.Keccak}.
Implicit Types (r : Recorder MemDatabase) (proof : list bytes).

(** On the in-memory database every write of [storeProof] succeeds. *)
Lemma storeProof_accepted proof r :
  Forall accepted (puts r) → Forall accepted (puts (storeProof r proof)).
Proof.
  revert r. induction proof as [|buf proof IH]; intros r Hr; [done|].
  cbn. destruct (inner r !! crypto.Keccak256 buf); cbn; apply IH; [done|].
  cbn. apply Forall_app. split; [done|]. by apply Forall_singleton.
Qed.

(** Every write [storeProof] asks for is the write of a node of the proof
    under its hash, and no value existed under that hash. *)
Lemma storeProof_journal proof r entry :
  entry ∈ puts (storeProof r proof) →
  entry ∈ puts r
  ∨ (inner r !! entry.1.1 = None
     ∧ entry.1.1 = crypto.Keccak256 entry.1.2
     ∧ entry.1.2 ∈ proof).
Proof.
  revert r. induction proof as [|buf proof IH]; intros r Hin; [by left|].
  cbn in Hin. destruct (inner r !! crypto.Keccak256 buf) eqn:Hbuf; cbn in Hin.
  - apply IH in Hin as [Hin|(Habsent & Hkey & Hnode)]; [by left|].
    right. repeat split; [done..|]. by apply elem_of_cons; right.
  - apply IH in Hin as [Hin|(Habsent & Hkey & Hnode)]; cbn in *.
    + apply elem_of_app in Hin as [Hin|Hin]; [by left|].
      apply list_elem_of_singleton in Hin as ->. cbn.
      right. repeat split; [done..|]. by apply elem_of_cons; left.
    + apply lookup_insert_None in Habsent as [Habsent _].
      right. repeat split; [done..|]. by apply elem_of_cons; right.
Qed.

(** No key is written twice by [storeProof], and every key of the journal
    holds a value. *)
Lemma storeProof_journal_fresh proof r :
  NoDup (puts r).*1.*1 →
  (∀ key, key ∈ (puts r).*1.*1 → is_Some (inner r !! key)) →
  NoDup (puts (storeProof r proof)).*1.*1
  ∧ (∀ key, key ∈ (puts (storeProof r proof)).*1.*1 →
       is_Some (inner (storeProof r proof) !! key)).
Proof.
  revert r. induction proof as [|buf proof IH]; intros r Hnodup Hheld; [done|].
  cbn. destruct (inner r !! crypto.Keccak256 buf) eqn:Hbuf; cbn.
  - by apply IH.
  - apply IH; cbn; rewrite !fmap_app; cbn.
    + apply NoDup_app. split; [done|]. split.
      * intros key Hin Hnew. apply list_elem_of_singleton in Hnew as ->.
        apply Hheld in Hin as [v Hv]. congruence.
      * apply NoDup_singleton.
    + intros key Hin. apply elem_of_app in Hin as [Hin|Hin].
      * destruct (decide (crypto.Keccak256 buf = key)) as [->|Hne].
        -- rewrite lookup_insert_eq. eauto.
        -- rewrite lookup_insert_ne by done. by apply Hheld.
      * apply list_elem_of_singleton in Hin as ->.
        rewrite lookup_insert_eq. eauto.
Qed.

End journal_mem.

(** Writing the same three records a second time changes nothing, whether or
    not their keys differ. *)
Lemma insert3_twice (m : MemDatabase) (k1 k2 k3 v1 v2 v3 : bytes) :
  <[k3 := v3]> (<[k2 := v2]> (<[k1 := v1]>
    (<[k3 := v3]> (<[k2 := v2]> (<[k1 := v1]> m))))) =
  <[k3 := v3]> (<[k2 := v2]> (<[k1 := v1]> m)).
Proof.
  apply map_eq. intros i. rewrite !lookup_insert.
  repeat case_decide; reflexivity.
Qed.

(** ** Trie identities *)

(** C6, amended.  For every header, [StateTrieID] returns the identity whose
    block hash is the header's hash, whose block number is the header's
    number converted to [uint64] (the number itself whenever it lies between
    0 and 2^64 - 1), whose root is the header's state root and whose account
    key is empty.  The constructor is a total function of the header
    alone. *)
Theorem StateTrieID_fields {H : Type} `{!types.Header H} (header : H) :
  BlockHash (StateTrieID header) = types.Hash header
  ∧ BlockNumber (StateTrieID header) = Uint64 (types.Number header)
  ∧ (0 ≤ types.Number header < 2 ^ 64 →
     BlockNumber (StateTrieID header) = types.Number header)
  ∧ Root (StateTrieID header) = types.Root header
  ∧ AccKey (StateTrieID header) = [].
Proof.
  repeat split; try reflexivity.
  intros Hrange. cbn. unfold Uint64.
  rewrite Z.abs_eq by lia. apply Z.mod_small. lia.
Qed.

(** C7.  For every state identity, account key hash and storage root,
    [StorageTrieID] returns the identity that inherits block hash and block
    number from the state identity, has the given hash as account key and
    the given root as root.  Nothing is checked about the arguments, and
    equal arguments give equal identities. *)
Theorem StorageTrieID_fields (state : TrieID) (addrHash root : common.Hash) :
  StorageTrieID state addrHash root =
    {| BlockHash := BlockHash state;
       BlockNumber := BlockNumber state;
       AccKey := addrHash;
       Root := root |}
  ∧ (∀ state' addrHash' root',
       state = state' → addrHash = addrHash' → root = root' →
       StorageTrieID state addrHash root = StorageTrieID state' addrHash' root').
Proof.
  split; [reflexivity|]. by intros ? ? ? -> -> ->.
Qed.

(** ** The proof store *)

(** C2.  [storeProof] writes a node only when no value exists under its
    content hash.  For every database state and every node [b], storing the
    proof [[b; b]] issues one write of [b] under its hash when the hash was
    absent and no write when it was present, so the duplicate changes
    nothing and there is one entry under the hash of [b]; every write of
    any proof is the write of a node under its hash, where no value existed,
    and no key is written twice; and a value already stored under a key is
    still stored under it afterwards. *)
Theorem storeProof_dedup `{!crypto.Keccak} (m : MemDatabase) (b : bytes) :
  storeProof (record m) [b; b] =
    match m !! crypto.Keccak256 b with
    | None =>
        mkRecorder (<[crypto.Keccak256 b := b]> m) [(crypto.Keccak256 b, b, None)]
    | Some _ => record m
    end
  ∧ storeProof m [b; b] = storeProof m [b]
  ∧ is_Some (storeProof m [b; b] !! crypto.Keccak256 b)
  ∧ (∀ key, key ≠ crypto.Keccak256 b → storeProof m [b; b] !! key = m !! key)
  ∧ (∀ proof entry,
       entry ∈ puts (storeProof (record m) proof) →
       m !! entry.1.1 = None
       ∧ entry.1.1 = crypto.Keccak256 entry.1.2
       ∧ entry.1.2 ∈ proof)
  ∧ (∀ proof, NoDup (puts (storeProof (record m) proof)).*1.*1)
  ∧ (∀ proof key value,
       m !! key = Some value → storeProof m proof !! key = Some value).
Proof.
  split; [|split; [|split; [|split; [|split; [|split]]]]].
  - cbn. destruct (m !! crypto.Keccak256 b) eqn:Hb; cbn.
    + by rewrite Hb.
    + by rewrite lookup_insert_eq.
  - rewrite !storeProof_cons, storeProof_nil.
    apply storeNode_skip, storeNode_present.
  - apply storeProof_present. by apply elem_of_cons; left.
  - intros key Hne. rewrite !storeProof_cons, storeProof_nil.
    rewrite (storeNode_skip (storeNode m b)) by apply storeNode_present.
    unfold storeNode. destruct (m !! crypto.Keccak256 b); [done|].
    by rewrite lookup_insert_ne.
  - intros proof entry Hin.
    apply storeProof_journal in Hin as [Hin|Hin]; [|done].
    by apply elem_of_nil in Hin.
  - intros proof. apply storeProof_journal_fresh; cbn.
    + apply NoDup_nil_2.
    + intros key Hin. by apply elem_of_nil in Hin.
  - intros proof key value. apply storeProof_keeps.
Qed.

(** ** Store routines *)

(** C10.  What [TrieRequest.StoreResult] does to the database depends on
    the proof alone: two requests with the same proof and any identities and
    keys leave the same database, and a request with an empty proof leaves
    the database as it was. *)
Theorem TrieRequest_StoreResult_proof_only {D : Type} `{!Database D}
    `{!crypto.Keccak} (id1 id2 : option TrieID) (key1 key2 : bytes)
    (proof : list bytes) (db : D) :
  TrieRequest.StoreResult (TrieRequest.mk id1 key1 proof) db =
  TrieRequest.StoreResult (TrieRequest.mk id2 key2 proof) db
  ∧ TrieRequest.StoreResult (TrieRequest.mk id1 key1 proof) db = storeProof db proof
  ∧ TrieRequest.StoreResult (TrieRequest.mk id1 key1 []) db = db.
Proof. repeat split. Qed.

(** C8.  [CodeRequest.StoreResult] writes the carried code under the carried
    hash whatever the database holds: on every database the routine is the
    one write of the code under the hash, with no read before it, and for
    every state of the key-value store reading the hash afterwards gives the
    code. *)
Theorem CodeRequest_StoreResult_get {D : Type} `{!Database D}
    (id : option TrieID) (h : common.Hash) (d : bytes) (db : D)
    (m : MemDatabase) :
  CodeRequest.StoreResult (CodeRequest.mk id h d) db = (Put db h d).1
  ∧ Get (CodeRequest.StoreResult (CodeRequest.mk id h d) m) h = (Some d, None)
  ∧ CodeRequest.StoreResult (CodeRequest.mk id h d) m = <[h := d]> m
  ∧ puts (CodeRequest.StoreResult (CodeRequest.mk id h d) (record m)) = [(h, d, None)].
Proof.
  split; [|split; [|split]].
  - unfold CodeRequest.StoreResult. cbn. by destruct (Put db h d).
  - cbn. by rewrite lookup_insert_eq.
  - reflexivity.
  - reflexivity.
Qed.

(** C9.  What [ChtRequest.StoreResult] does to the database depends on the
    header and the total difficulty alone, whatever the writers of package
    [core] do: two requests with the same header and total difficulty and
    any CHT numbers, block numbers, CHT roots and proofs leave the same
    database.  The result is that of the three writers applied to the
    header, its own hash and its own number; the proof and the request's
    block number do not occur. *)
Theorem ChtRequest_StoreResult_header_td_only {D H R : Type} `{!types.Header H}
    `{!core.Writers D H R} (chtNum1 chtNum2 blockNum1 blockNum2 : Z)
    (chtRoot1 chtRoot2 : common.Hash) (proof1 proof2 : list bytes)
    (header : H) (td : Z) (db : D) :
  ChtRequest.StoreResult (ChtRequest.mk chtNum1 blockNum1 chtRoot1 header td proof1) db =
  ChtRequest.StoreResult (ChtRequest.mk chtNum2 blockNum2 chtRoot2 header td proof2) db
  ∧ ChtRequest.StoreResult (ChtRequest.mk chtNum1 blockNum1 chtRoot1 header td proof1) db =
    core.WriteCanonicalHash
      (core.WriteTd (core.WriteHeader db header)
         (types.Hash header) (Uint64 (types.Number header)) td)
      (types.Hash header) (Uint64 (types.Number header)).
Proof. split; reflexivity. Qed.

(** C1.  For every request variant and every database state, invoking the
    variant's store routine twice with the same answer leaves the contents
    that invoking it once leaves, and no write of the two invocations
    fails. *)
Theorem StoreResult_idempotent {H R : Type} `{!crypto.Keccak}
    `{!types.Header H} `{!core.Schema H R} (req : OdrRequest H R)
    (m : MemDatabase) :
  StoreResult req (StoreResult req m) = StoreResult req m
  ∧ inner (StoreResult req (StoreResult req (record m))) = StoreResult req m
  ∧ Forall accepted (puts (StoreResult req (StoreResult req (record m)))).
Proof.
  destruct req as [r|r|r|r|r]; cbn [StoreResult].
  - unfold TrieRequest.StoreResult. split; [|split].
    + apply storeProof_idempotent.
    + rewrite !inner_storeProof. apply storeProof_idempotent.
    + do 2 apply storeProof_accepted. constructor.
  - cbn. split; [|split].
    + apply insert_insert_eq.
    + apply insert_insert_eq.
    + repeat constructor.
  - cbn. split; [|split].
    + apply insert_insert_eq.
    + apply insert_insert_eq.
    + repeat constructor.
  - cbn. split; [|split].
    + apply insert_insert_eq.
    + apply insert_insert_eq.
    + repeat constructor.
  - cbn. split; [|split].
    + apply insert3_twice.
    + apply insert3_twice.
    + repeat constructor.
Qed.

(** C4, amended.  [ChtRequest.StoreResult] calls exactly three writers, in
    this order: [WriteHeader] on the header, [WriteTd] on (hash, number) and
    the total difficulty, [WriteCanonicalHash] on (hash, number), where the
    number is the header's number converted to [uint64].  With each writer
    one write, these are exactly three writes, in this order: the header
    record, the total-difficulty record keyed by (hash, number), and the
    canonical-hash record mapping number to hash.  Afterwards the
    canonical-hash lookup for that number gives the header's hash and the
    total-difficulty record for (hash, number) is the carried total
    difficulty; whenever the header's number lies between 0 and 2^64 - 1,
    that number is the header's number itself, so that the records are
    written and found under the header's number. *)
Theorem ChtRequest_StoreResult_writes {H R : Type} `{!types.Header H}
    `{!RecordLayout H R} (req : ChtRequest.t H) (m : MemDatabase) :
  let header := ChtRequest.Header req in
  let hash := types.Hash header in
  let td := ChtRequest.Td req in
  let num := Uint64 (types.Number header) in
  ChtRequest.StoreResult req ([] : list (core.Call H R)) =
    [ core.CallWriteHeader header;
      core.CallWriteTd hash num td;
      core.CallWriteCanonicalHash hash num ]
  ∧ puts (ChtRequest.StoreResult req (record m)) =
    [ (core.headerKey hash num, core.encodeHeader header, None);
      (core.tdKey hash num, core.encodeTd td, None);
      (core.canonicalHashKey num, hash, None) ]
  ∧ inner (ChtRequest.StoreResult req (record m)) = ChtRequest.StoreResult req m
  ∧ Get (ChtRequest.StoreResult req m) (core.canonicalHashKey num) = (Some hash, None)
  ∧ Get (ChtRequest.StoreResult req m) (core.tdKey hash num) =
    (Some (core.encodeTd td), None)
  ∧ (0 ≤ types.Number header < 2 ^ 64 →
     ChtRequest.StoreResult req ([] : list (core.Call H R)) =
       [ core.CallWriteHeader header;
         core.CallWriteTd hash (types.Number header) td;
         core.CallWriteCanonicalHash hash (types.Number header) ]
     ∧ puts (ChtRequest.StoreResult req (record m)) =
       [ (core.headerKey hash (types.Number header), core.encodeHeader header, None);
         (core.tdKey hash (types.Number header), core.encodeTd td, None);
         (core.canonicalHashKey (types.Number header), hash, None) ]
     ∧ Get (ChtRequest.StoreResult req m) (core.canonicalHashKey (types.Number header))
       = (Some hash, None)
     ∧ Get (ChtRequest.StoreResult req m) (core.tdKey hash (types.Number header))
       = (Some (core.encodeTd td), None)).
Proof.
  intros header hash td num.
  assert (Hcanonical :
    Get (ChtRequest.StoreResult req m) (core.canonicalHashKey num) = (Some hash, None)).
  { cbn. by rewrite lookup_insert_eq. }
  assert (Htd :
    Get (ChtRequest.StoreResult req m) (core.tdKey hash num) =
    (Some (core.encodeTd td), None)).
  { cbn. fold header hash num.
    rewrite lookup_insert_ne
      by (intros Heq; exact (td_canonical_separate hash num (eq_sym Heq))).
    by rewrite lookup_insert_eq. }
  split; [reflexivity|]. split; [reflexivity|]. split; [reflexivity|].
  split; [exact Hcanonical|]. split; [exact Htd|].
  intros Hrange.
  assert (Hnum : num = types.Number header).
  { unfold num, Uint64. rewrite Z.abs_eq by lia. apply Z.mod_small. lia. }
  rewrite <- Hnum. repeat split; [exact Hcanonical|exact Htd].
Qed.

(** C5, amended.  The store routines drop a write the database rejects.
    Whatever the database answers to the writes, [TrieRequest.StoreResult]
    asks for writes of proof nodes under their hashes, in the order of the
    proof and at most once for each node (no retry), and
    [CodeRequest.StoreResult] asks once for its one write.  Under a handle
    that refuses every write, [TrieRequest.StoreResult] asks once for the
    write of each node that has no value under its hash, goes on after each
    refusal and leaves the contents as they were, and
    [CodeRequest.StoreResult] leaves the contents as they were.  The
    routines have no result besides the database, so no failure reaches the
    caller. *)
Theorem StoreResult_rejection_dropped {D : Type} `{!Database D}
    `{!crypto.Keccak} (d : D) (id : option TrieID) (key : bytes)
    (proof : list bytes) (h : common.Hash) (data : bytes) :
  (puts (TrieRequest.StoreResult (TrieRequest.mk id key proof) (record d))).*1
    `sublist_of` map nodeWrite proof
  ∧ puts (CodeRequest.StoreResult (CodeRequest.mk id h data) (record d)) =
    [(h, data, (Put d h data).2)]
  ∧ TrieRequest.StoreResult (TrieRequest.mk id key proof) (record (mkReadOnly d)) =
    mkRecorder (mkReadOnly d) (map refusal (missing d proof))
  ∧ TrieRequest.StoreResult (TrieRequest.mk id key proof) (mkReadOnly d) = mkReadOnly d
  ∧ CodeRequest.StoreResult (CodeRequest.mk id h data) (record (mkReadOnly d)) =
    mkRecorder (mkReadOnly d) [(h, data, Some "read-only database"%string)]
  ∧ CodeRequest.StoreResult (CodeRequest.mk id h data) (mkReadOnly d) = mkReadOnly d.
Proof.
  split; [|split; [|split; [|split; [|split]]]].
  - destruct (storeProof_attempts proof (record d)) as (new & Hputs & Hsub).
    unfold TrieRequest.StoreResult. cbn [TrieRequest.Proof].
    rewrite Hputs. exact Hsub.
  - unfold CodeRequest.StoreResult. cbn.
    destruct (Put d h data) as [d' e']. reflexivity.
  - apply (storeProof_readonly proof d []).
  - unfold TrieRequest.StoreResult. cbn [TrieRequest.Proof].
    rewrite <- (inner_storeProof proof (record (mkReadOnly d))).
    unfold record. by rewrite storeProof_readonly.
  - reflexivity.
  - reflexivity.
Qed.

(** ** The retrieval backend *)

(** C3.  For every request, context and network: when [Retrieve] fails, no
    store routine has been invoked and the database is as it was; and when
    the context is already cancelled at the call, [Retrieve] fails with the
    cancellation error, no store routine runs and the database is as it
    was. *)
Theorem Retrieve_failure_stores_nothing {D H R : Type} `{!Database D}
    `{!crypto.Keccak} `{!types.Header H} `{!core.Writers D H R}
    (network : OdrRequest H R → OdrBackend.Outcome H R) (db : D)
    (ctx : OdrBackend.Context) (req : OdrRequest H R) :
  let res := OdrBackend.Retrieve network db ctx req in
  (is_Some (OdrBackend.err res) →
   OdrBackend.stored res = [] ∧ OdrBackend.database res = db)
  ∧ (ctx = OdrBackend.Cancelled →
     OdrBackend.err res = Some OdrBackend.ContextCancelled
     ∧ OdrBackend.stored res = [] ∧ OdrBackend.database res = db).
Proof.
  cbn zeta. split.
  - intros [e He]. revert He. unfold OdrBackend.Retrieve.
    destruct ctx; [|done..].
    destruct (network req); [discriminate|done].
  - intros ->. done.
Qed.

(** ** Runs on the concrete instance *)

(** The concrete key layout keeps the total-difficulty record and the
    canonical-hash record of a block apart. *)
Lemma Sample_keys_separate (hash : common.Hash) (number : Z) :
  @core.tdKey _ _ Sample.schema hash number
  ≠ @core.canonicalHashKey _ _ Sample.schema number.
Proof.
  cbn. intros Heq. injection Heq as Heq.
  destruct hash as [|b [|b' hash]]; discriminate.
Qed.

Definition Sample_layout : RecordLayout Sample.header (list bytes) :=
  mkRecordLayout _ _ Sample.schema Sample_keys_separate.

Section runs.
#[local] Existing Instance Sample.Keccak.
#[local] Existing Instance Sample.Header.
#[local] Existing Instance Sample.schema.

(** The state lookup scenario: a header with root [R] and block number 5. *)
Example StateTrieID_scenario :
  StateTrieID Sample.header5 =
  {| BlockHash := types.Hash Sample.header5;
     BlockNumber := 5;
     Root := Sample.root5;
     AccKey := [] |}.
Proof. reflexivity. Qed.

(** A proof with a repeated node, stored into the empty database: two
    writes, two entries. *)
Example storeProof_run :
  storeProof (record (∅ : MemDatabase)) [Sample.node1; Sample.node1; Sample.node2] =
  mkRecorder
    {[ Sample.hash32 Sample.node1 := Sample.node1;
       Sample.hash32 Sample.node2 := Sample.node2 ]}
    [ (Sample.hash32 Sample.node1, Sample.node1, None);
      (Sample.hash32 Sample.node2, Sample.node2, None) ].
Proof. vm_compute. reflexivity. Qed.

(** The code retrieval scenario, over a database that holds another value
    under the hash. *)
Example CodeRequest_run :
  Get (CodeRequest.StoreResult Sample.code1
         ({[ Sample.hash32 Sample.node2 := Sample.node1 ]} : MemDatabase))
      (Sample.hash32 Sample.node2)
  = (Some Sample.node2, None).
Proof. vm_compute. reflexivity. Qed.

(** C6, as stated, fails.  The block number of an identity is a [uint64]
    and the number of a header is a big integer: for a header whose number is
    2^64 the block number of the identity is 0, not the header's number. *)
Lemma StateTrieID_number_converted :
  types.Number Sample.header_wide = 2 ^ 64
  ∧ BlockNumber (StateTrieID Sample.header_wide) = 0.
Proof. split; reflexivity. Qed.

(** The CHT entry scenario, for a header with number 5 under the concrete
    layout: after the store the canonical-hash lookup for number 5 gives the
    header's hash and the total-difficulty record for (hash, 5) is the
    carried total difficulty. *)
Lemma ChtRequest_StoreResult_writes_witness :
  Get (ChtRequest.StoreResult Sample.cht5 (∅ : MemDatabase))
      (core.canonicalHashKey 5)
    = (Some (types.Hash Sample.header5), None)
  ∧ Get (ChtRequest.StoreResult Sample.cht5 (∅ : MemDatabase))
      (core.tdKey (types.Hash Sample.header5) 5)
    = (Some (core.encodeTd 1000), None).
Proof.
  assert (Hrange : 0 ≤ types.Number Sample.header5 < 2 ^ 64)
    by (cbn; lia).
  pose proof (@ChtRequest_StoreResult_writes _ _ Sample.Header Sample_layout
                Sample.cht5 ∅) as (_ & _ & _ & _ & _ & Hnumber).
  exact (proj2 (proj2 (Hnumber Hrange))).
Defined.

(** C4, as stated, fails.  The number the records are written under is a
    [uint64] and the number of a header is a big integer: for a header whose
    number is 2^64 the total-difficulty record and the canonical-hash record
    are written for number 0, not for the header's number. *)
Lemma ChtRequest_StoreResult_number_converted :
  types.Number Sample.header_wide = 2 ^ 64
  ∧ ChtRequest.StoreResult Sample.cht_wide ([] : list (core.Call _ (list bytes))) =
    [ core.CallWriteHeader Sample.header_wide;
      core.CallWriteTd (types.Hash Sample.header_wide) 0 1000;
      core.CallWriteCanonicalHash (types.Hash Sample.header_wide) 0 ]
  ∧ puts (ChtRequest.StoreResult Sample.cht_wide (record (∅ : MemDatabase))) =
    [ (core.headerKey (types.Hash Sample.header_wide) 0,
       core.encodeHeader Sample.header_wide, None);
      (core.tdKey (types.Hash Sample.header_wide) 0, core.encodeTd 1000, None);
      (core.canonicalHashKey 0, types.Hash Sample.header_wide, None) ].
Proof. repeat split. Qed.

(** A cancelled context: the retrieval fails and nothing is stored, even
    when the network would have delivered the answer. *)
Lemma Retrieve_failure_stores_nothing_witness :
  let res :=
    OdrBackend.Retrieve OdrBackend.Accepted (∅ : MemDatabase)
      OdrBackend.Cancelled (Cht Sample.cht5) in
  OdrBackend.err res = Some OdrBackend.ContextCancelled
  ∧ OdrBackend.stored res = [] ∧ OdrBackend.database res = ∅.
Proof.
  exact (proj2 (Retrieve_failure_stores_nothing OdrBackend.Accepted
                  (∅ : MemDatabase) OdrBackend.Cancelled (Cht Sample.cht5))
               eq_refl).
Defined.

(** C5, as stated, fails.  On a handle that refuses every write, the store
    routine of a code request has its write rejected, and the store routine
    of a trie request whose proof is already stored asks for no write; both
    return the same database, the one they were given, and nothing else, so
    the caller of the first is not told of its rejected write. *)
Lemma StoreResult_rejection_unreported :
  Exists rejected
    (puts (CodeRequest.StoreResult Sample.code1
             (record (mkReadOnly Sample.db1))))
  ∧ puts (TrieRequest.StoreResult Sample.trie1
            (record (mkReadOnly Sample.db1))) = []
  ∧ CodeRequest.StoreResult Sample.code1 (mkReadOnly Sample.db1)
    = TrieRequest.StoreResult Sample.trie1 (mkReadOnly Sample.db1)
  ∧ CodeRequest.StoreResult Sample.code1 (mkReadOnly Sample.db1)
    = mkReadOnly Sample.db1.
Proof.
  split; [|split; [|split]].
  - apply Exists_cons_hd. unfold rejected. cbn. eauto.
  - vm_compute. reflexivity.
  - vm_compute. reflexivity.
  - reflexivity.
Qed.

End runs.

(** * Further properties of the store routines *)

(** ** [storeProof] in closed form *)

Section proofMap_facts.
Context `{!crypto.Keccak}.
Implicit Types (m : MemDatabase) (proof : list bytes) (buf key : bytes).

Lemma proofMap_cons buf proof :
  proofMap (buf :: proof) = <[crypto.Keccak256 buf := buf]> (proofMap proof).
Proof. reflexivity. Qed.

Lemma storeNode_union m buf (rest : MemDatabase) :
  storeNode m buf ∪ rest = m ∪ <[crypto.Keccak256 buf := buf]> rest.
Proof.
  unfold storeNode. apply map_eq. intros key.
  destruct (m !! crypto.Keccak256 buf) as [v|] eqn:Hbuf.
  - rewrite !lookup_union.
    destruct (decide (crypto.Keccak256 buf = key)) as [<-|Hne].
    + rewrite Hbuf, lookup_insert_eq. by destruct (rest !! _).
    + by rewrite lookup_insert_ne.
  - rewrite <- insert_union_l. by rewrite insert_union_r.
Qed.

(** A node found in the map of a proof is a node of the proof, under its
    own hash. *)
Lemma proofMap_lookup_Some proof key buf :
  proofMap proof !! key = Some buf → buf ∈ proof ∧ crypto.Keccak256 buf = key.
Proof.
  induction proof as [|b proof IH]; [done|].
  rewrite proofMap_cons.
  destruct (decide (crypto.Keccak256 b = key)) as [<-|Hne].
  - rewrite lookup_insert_eq. intros [= <-]. split; [|done].
    by apply elem_of_cons; left.
  - rewrite lookup_insert_ne by done. intros Hin.
    apply IH in Hin as [Hin Hkey]. split; [|done].
    by apply elem_of_cons; right.
Qed.

Lemma proofMap_lookup_None proof key :
  proofMap proof !! key = None ↔ ∀ buf, buf ∈ proof → crypto.Keccak256 buf ≠ key.
Proof.
  induction proof as [|b proof IH].
  - split; [|done]. intros _ buf Hin. by apply elem_of_nil in Hin.
  - rewrite proofMap_cons, lookup_insert_None, IH. split.
    + intros [Hrest Hb] buf Hin. apply elem_of_cons in Hin as [->|Hin]; auto.
    + intros Hall. split.
      * intros buf Hin. apply Hall. by apply elem_of_cons; right.
      * apply Hall. by apply elem_of_cons; left.
Qed.

(** Without collisions, every node of the proof is in the map under its
    hash. *)
Lemma proofMap_lookup_node proof buf :
  collisionFree proof → buf ∈ proof →
  proofMap proof !! crypto.Keccak256 buf = Some buf.
Proof.
  intros Hfree Hin.
  destruct (proofMap proof !! crypto.Keccak256 buf) as [b|] eqn:Hb.
  - apply proofMap_lookup_Some in Hb as [Hbin Hkey].
    f_equal. by apply Hfree.
  - by destruct (proj1 (proofMap_lookup_None proof _) Hb buf Hin).
Qed.

Lemma storeProof_union_proofMap proof m :
  storeProof m proof = m ∪ proofMap proof.
Proof.
  revert m. induction proof as [|buf proof IH]; intros m.
  - unfold proofMap. cbn. by rewrite (right_id_L ∅ (∪)).
  - rewrite storeProof_cons, IH, proofMap_cons. apply storeNode_union.
Qed.

End proofMap_facts.

Section storeProof_more.
Context `{!crypto.Keccak}.
Implicit Types (m : MemDatabase) (proof : list bytes) (buf key : bytes).

Lemma proofMap_list_find proof key :
  proofMap proof !! key =
  snd <$> list_find (λ buf, crypto.Keccak256 buf = key) proof.
Proof.
  induction proof as [|b proof IH]; [done|].
  rewrite proofMap_cons. cbn. case_decide as Hb.
  - subst key. by rewrite lookup_insert_eq.
  - rewrite lookup_insert_ne by done. rewrite IH.
    by destruct (list_find _ proof) as [[i x]|].
Qed.

Lemma collisionFree_perm proof1 proof2 :
  proof1 ≡ₚ proof2 → collisionFree proof1 → collisionFree proof2.
Proof.
  intros Hperm Hfree a b Ha Hb. apply Hfree; by rewrite Hperm.
Qed.

Lemma proofMap_perm proof1 proof2 :
  proof1 ≡ₚ proof2 → collisionFree proof1 → proofMap proof1 = proofMap proof2.
Proof.
  intros Hperm Hfree. apply map_eq. intros key. apply option_eq. intros buf.
  split; intros Hlook; apply proofMap_lookup_Some in Hlook as [Hin <-].
  - apply proofMap_lookup_node; [by eapply collisionFree_perm|by rewrite <- Hperm].
  - apply proofMap_lookup_node; [done|by rewrite Hperm].
Qed.

(** The growth of the store is the number of writes. *)
Lemma storeProof_size proof (r : Recorder MemDatabase) :
  (size (inner (storeProof r proof)) + length (puts r) =
   size (inner r) + length (puts (storeProof r proof)))%nat.
Proof.
  revert r. induction proof as [|buf proof IH]; intros r; [done|].
  cbn. destruct (inner r !! crypto.Keccak256 buf) eqn:Hbuf; cbn.
  - apply IH.
  - pose proof (IH (mkRecorder (<[crypto.Keccak256 buf := buf]> (inner r))
                      (puts r ++ [(crypto.Keccak256 buf, buf, None)]))) as Hrec.
    cbn in Hrec. rewrite map_size_insert_None, length_app in Hrec by done.
    cbn in Hrec. lia.
Qed.

End storeProof_more.

Section unreadable.
Context {D : Type} `{!Database D} `{!crypto.Keccak}.

(** When no read succeeds, every node of the proof is written, in order. *)
Lemma storeProof_unreadable_journal proof (d : D) log :
  (puts (storeProof (mkRecorder (mkUnreadable d) log) proof)).*1 =
  log.*1 ++ map nodeWrite proof.
Proof.
  revert d log. induction proof as [|buf proof IH]; intros d log.
  - cbn. by rewrite app_nil_r.
  - cbn. destruct (Put d (crypto.Keccak256 buf) buf) as [d' e].
    rewrite IH, fmap_app. cbn. by rewrite <- app_assoc.
Qed.

End unreadable.

Section unreadable_mem.
Context `{!crypto.Keccak}.
Implicit Types (m : MemDatabase) (proof : list bytes).

Lemma proofMap_snoc proof buf m :
  proofMap (proof ++ [buf]) ∪ m =
  proofMap proof ∪ <[crypto.Keccak256 buf := buf]> m.
Proof.
  unfold proofMap. rewrite map_app, list_to_map_app. cbn.
  rewrite <- (assoc_L (∪)). f_equal.
  rewrite <- insert_union_l. by rewrite (left_id_L ∅ (∪)).
Qed.

Lemma storeProof_unreadable_contents proof m :
  ur_db (storeProof (mkUnreadable m) proof) = proofMap (reverse proof) ∪ m.
Proof.
  revert m. induction proof as [|buf proof IH]; intros m.
  - cbn. unfold proofMap. cbn. by rewrite (left_id_L ∅ (∪)).
  - rewrite reverse_cons, proofMap_snoc, <- IH. reflexivity.
Qed.

End unreadable_mem.

(** ** The properties *)

(** X1.  First writer wins.  On the key-value store, [storeProof] leaves the
    store united with the map of the proof's nodes by hash, the store's own
    entries first: under every key the value is the one the store held, or
    else the first node of the proof with that hash, or else nothing. *)
Theorem storeProof_first_writer_wins `{!crypto.Keccak} (m : MemDatabase)
    (proof : list bytes) :
  storeProof m proof = m ∪ proofMap proof
  ∧ ∀ key,
      storeProof m proof !! key =
      match m !! key with
      | Some value => Some value
      | None => snd <$> list_find (λ buf, crypto.Keccak256 buf = key) proof
      end.
Proof.
  split; [apply storeProof_union_proofMap|].
  intros key. rewrite storeProof_union_proofMap, lookup_union.
  rewrite proofMap_list_find.
  destruct (m !! key); [|by rewrite (left_id_L None union)].
  by destruct (snd <$> list_find _ proof).
Qed.

(** X2.  On every database, storing the concatenation of two proofs is
    storing the first and then the second. *)
Theorem storeProof_concat {D : Type} `{!Database D} `{!crypto.Keccak}
    (db : D) (proof1 proof2 : list bytes) :
  storeProof db (proof1 ++ proof2) = storeProof (storeProof db proof1) proof2.
Proof.
  revert db. induction proof1 as [|buf proof1 IH]; intros db; [done|].
  cbn. destruct (Get db (crypto.Keccak256 buf)) as [[v|] e]; [apply IH|].
  destruct (Put db (crypto.Keccak256 buf) buf) as [db1 e']. apply IH.
Qed.

(** X3.  A node of a proof without hash collisions, whose hash held no value
    before, is read back under its hash after [storeProof]. *)
Theorem storeProof_lookup_node `{!crypto.Keccak} (m : MemDatabase)
    (proof : list bytes) (buf : bytes) :
  collisionFree proof →
  buf ∈ proof →
  m !! crypto.Keccak256 buf = None →
  Get (storeProof m proof) (crypto.Keccak256 buf) = (Some buf, None).
Proof.
  intros Hfree Hin Habsent. cbn.
  rewrite storeProof_union_proofMap, lookup_union, Habsent.
  rewrite (left_id_L None union).
  by rewrite proofMap_lookup_node.
Qed.

(** X4.  [storeProof] touches the keys that are hashes of proof nodes and no
    other: the keys afterwards are the keys before and the hashes of the
    nodes, and a key that is the hash of no node reads as before. *)
Theorem storeProof_frame `{!crypto.Keccak} (m : MemDatabase)
    (proof : list bytes) :
  dom (storeProof m proof) = dom m ∪ list_to_set (map crypto.Keccak256 proof)
  ∧ ∀ key,
      (∀ buf, buf ∈ proof → crypto.Keccak256 buf ≠ key) →
      storeProof m proof !! key = m !! key.
Proof.
  rewrite storeProof_union_proofMap. split.
  - rewrite dom_union_L. f_equal. unfold proofMap.
    rewrite dom_list_to_map_L. f_equal.
    rewrite <- list_fmap_compose. reflexivity.
  - intros key Hkey. rewrite lookup_union.
    rewrite (proj2 (proofMap_lookup_None proof key) Hkey).
    by rewrite (right_id_L None union).
Qed.

(** X5.  The order of the nodes of a proof without hash collisions does not
    matter: a permutation of the proof leaves the same store. *)
Theorem storeProof_permutation `{!crypto.Keccak} (m : MemDatabase)
    (proof1 proof2 : list bytes) :
  proof1 ≡ₚ proof2 →
  collisionFree proof1 →
  storeProof m proof1 = storeProof m proof2.
Proof.
  intros Hperm Hfree. rewrite !storeProof_union_proofMap.
  f_equal. by apply proofMap_perm.
Qed.

(** X6.  The store grows by exactly the number of writes [storeProof] asks
    for, which is at most the number of nodes of the proof. *)
Theorem storeProof_growth `{!crypto.Keccak} (m : MemDatabase)
    (proof : list bytes) :
  size (storeProof m proof) =
    (size m + length (puts (storeProof (record m) proof)))%nat
  ∧ (length (puts (storeProof (record m) proof)) ≤ length proof)%nat.
Proof.
  split.
  - pose proof (storeProof_size proof (record m)) as Hsize.
    rewrite inner_storeProof in Hsize. cbn in Hsize. lia.
  - destruct (storeProof_attempts proof (record m)) as (new & Hputs & Hsub).
    rewrite Hputs. cbn. apply sublist_length in Hsub.
    by rewrite !length_fmap in Hsub.
Qed.

(** X7.  The store routine of a code request and the store routine of a trie
    request commute on the key-value store, whatever the hashes; and the
    store routines of two code requests commute when their hashes differ. *)
Theorem StoreResult_commute `{!crypto.Keccak} (code code' : CodeRequest.t)
    (trie : TrieRequest.t) (m : MemDatabase) :
  CodeRequest.StoreResult code (TrieRequest.StoreResult trie m) =
  TrieRequest.StoreResult trie (CodeRequest.StoreResult code m)
  ∧ (CodeRequest.Hash code ≠ CodeRequest.Hash code' →
     CodeRequest.StoreResult code (CodeRequest.StoreResult code' m) =
     CodeRequest.StoreResult code' (CodeRequest.StoreResult code m)).
Proof.
  split.
  - unfold TrieRequest.StoreResult. cbn.
    rewrite !storeProof_union_proofMap. apply insert_union_l.
  - intros Hne. cbn. by apply insert_insert_ne.
Qed.

(** X8.  The error of [Get] is dropped and a nil value counts as absent:
    through a handle whose reads all fail, [storeProof] writes every node of
    the proof, in order, on every database; on the key-value store the last
    node with a hash is the one stored, also over a value the store held. *)
Theorem storeProof_unreadable {D : Type} `{!Database D} `{!crypto.Keccak}
    (d : D) (m : MemDatabase) (proof : list bytes) :
  (puts (storeProof (record (mkUnreadable d)) proof)).*1 = map nodeWrite proof
  ∧ ur_db (storeProof (mkUnreadable m) proof) = proofMap (reverse proof) ∪ m
  ∧ ∀ buf, ur_db (storeProof (mkUnreadable m) (proof ++ [buf]))
             !! crypto.Keccak256 buf = Some buf.
Proof.
  split; [|split].
  - apply (storeProof_unreadable_journal proof d []).
  - apply storeProof_unreadable_contents.
  - intros buf. rewrite storeProof_unreadable_contents, reverse_app.
    rewrite reverse_singleton. cbn [app].
    rewrite proofMap_cons, lookup_union, lookup_insert_eq.
    by destruct (m !! _).
Qed.

(** X9.  After a proof is stored, storing any proof made of its nodes
    changes nothing. *)
Theorem storeProof_subproof `{!crypto.Keccak} (m : MemDatabase)
    (proof sub : list bytes) :
  (∀ buf, buf ∈ sub → buf ∈ proof) →
  storeProof (storeProof m proof) sub = storeProof m proof.
Proof.
  intros Hsub. apply storeProof_all_present.
  intros buf Hin. apply storeProof_present. by apply Hsub.
Qed.

(** X10.  The block number of a state identity lies within [uint64] for
    every header, whatever the header's number; a storage identity derived
    from it carries the header's hash and that block number, with the given
    account key and root; and deriving a storage identity from a storage
    identity is deriving it from the state identity underneath. *)
Theorem TrieID_derivation {H : Type} `{!types.Header H} (header : H)
    (state : TrieID) (addrHash root addrHash' root' : common.Hash) :
  0 ≤ BlockNumber (StateTrieID header) < 2 ^ 64
  ∧ BlockHash (StorageTrieID (StateTrieID header) addrHash root) = types.Hash header
  ∧ BlockNumber (StorageTrieID (StateTrieID header) addrHash root) =
    BlockNumber (StateTrieID header)
  ∧ StorageTrieID (StateTrieID header) addrHash root =
    {| BlockHash := types.Hash header;
       BlockNumber := Uint64 (types.Number header);
       AccKey := addrHash;
       Root := root |}
  ∧ 0 ≤ BlockNumber (StorageTrieID (StateTrieID header) addrHash root) < 2 ^ 64
  ∧ BlockHash (StorageTrieID (StorageTrieID state addrHash root) addrHash' root') =
    BlockHash state
  ∧ BlockNumber (StorageTrieID (StorageTrieID state addrHash root) addrHash' root') =
    BlockNumber state
  ∧ StorageTrieID (StorageTrieID state addrHash root) addrHash' root' =
    StorageTrieID state addrHash' root'.
Proof.
  assert (Hrange : 0 ≤ Uint64 (types.Number header) < 2 ^ 64)
    by (unfold Uint64; apply Z.mod_pos_bound; lia).
  repeat split; try reflexivity; apply Hrange.
Qed.

(** ** Runs of the further properties on the concrete instance *)

Section more_runs.
#[local] Existing Instance Sample.Keccak.

Lemma Sample_collisionFree : collisionFree [Sample.node1; Sample.node2].
Proof.
  intros a b Ha Hb Heq.
  apply elem_of_cons in Ha as [->|Ha]; apply elem_of_cons in Hb as [->|Hb];
    try apply list_elem_of_singleton in Ha as ->;
    try apply list_elem_of_singleton in Hb as ->;
    try reflexivity; vm_compute in Heq; discriminate.
Qed.

(** The second of two nodes, stored into the empty store, is read back. *)
Lemma storeProof_lookup_node_witness :
  Get (storeProof (∅ : MemDatabase) [Sample.node1; Sample.node2])
      (crypto.Keccak256 Sample.node2)
  = (Some Sample.node2, None).
Proof.
  apply (storeProof_lookup_node ∅ [Sample.node1; Sample.node2] Sample.node2).
  - exact Sample_collisionFree.
  - apply elem_of_cons; right. apply elem_of_cons; left. reflexivity.
  - reflexivity.
Defined.

(** Two nodes in either order, over a store that holds the first. *)
Lemma storeProof_permutation_witness :
  storeProof Sample.db1 [Sample.node1; Sample.node2] =
  storeProof Sample.db1 [Sample.node2; Sample.node1].
Proof.
  apply storeProof_permutation.
  - apply perm_swap.
  - exact Sample_collisionFree.
Defined.

(** A proof of two nodes, then one of its nodes twice. *)
Lemma storeProof_subproof_witness :
  storeProof (storeProof (∅ : MemDatabase) [Sample.node1; Sample.node2])
    [Sample.node2; Sample.node2]
  = storeProof (∅ : MemDatabase) [Sample.node1; Sample.node2].
Proof.
  apply storeProof_subproof. intros buf Hin.
  apply elem_of_cons; right. apply elem_of_cons; left.
  apply elem_of_cons in Hin as [->|Hin]; [reflexivity|].
  by apply list_elem_of_singleton in Hin as ->.
Defined.

End more_runs.
